(** * Signalling relay and client media switching of the Vercel prototype

    A shallow embedding of the Express signalling server
    ([vercel-app/api/index.js]) and of the client-side connection and
    screen-share logic ([vercel-app/public/script.js]).

    Modelling conventions.
    - The two server globals [rooms] and [messageQueues] are JavaScript
      objects used as string-keyed maps; they are finite maps here.  Keys
      that a JavaScript object inherits from [Object.prototype] are outside
      this model: the maps answer [None] for every key never written.
    - A request field is an [option string]: [None] is a field that is absent
      or [null], [Some s] a JSON string.  The HTTP contract types [roomId],
      [peerId], [to], [type] and [from] as strings.
    - Each handler runs to completion before the next one starts (Node's
      single-threaded event loop; the handlers contain no [await]). *)

From stdpp Require Import gmap strings list fin_maps.
From Stdlib Require Import ZArith.

Set Warnings "-register-all".

(** ** Values on the wire *)

Module Wire.

(** A JavaScript value carried in the [data] property of a message.  The
    relay stores and returns it without ever looking inside.  [VUndefined]
    is what reading an absent property gives. *)
Inductive value : Type :=
  | VUndefined
  | VNull
  | VBool (b : bool)
  | VNum (z : Z)
  | VStr (s : string)
  | VArr (items : list value)
  | VObj (fields : list (string * value)).

(** A queued message [{ type, data, from }].  The notifications built by the
    server have no [data] property: it reads as [VUndefined]. *)
Record Msg : Type := mkMsg {
  type : string;
  data : value;
  from : string
}.

End Wire.

(** ** The server: [api/index.js] *)

Module Server.
Import Wire.

(** [const rooms = {}; const messageQueues = {};] *)
Record state : Type := mkState {
  rooms : gmap string (list string);
  messageQueues : gmap string (list Msg)
}.





(** JavaScript truthiness of a string-typed field: [!x] holds for
    [undefined], [null] and the empty string.  [truthy x = None] is [!x]. *)
Definition truthy (x : option string) : option string :=
  match x with
  | Some s => if decide (s = "") then None else Some s
  | None => None
  end.



Definition peer_connected (peerId : string) : Msg :=
  {| type := "peer-connected"; data := VUndefined; from := peerId |}.






(** The four routes as one request type, and a run of the server over a
    sequence of requests. *)
Inductive request : Type :=
  | Join (roomId peerId : option string)
  | Send (to type : option string) (data : value) (from : option string)
  | Leave (roomId peerId : option string)
  | Poll (peerId : option string).









(** *** The behaviour the specification describes

    These definitions follow the wording of the specification (sections
    4.1, 4.2 and 8), not the code; the theorems compare them with the
    handlers above. *)



(** [sends p ms]: the requests by which the messages [ms] are sent to [p]. *)
Definition sends (p : string) (ms : list Msg) : list request :=
  (λ m, Send (Some p) (Some (type m)) (data m) (Some (from m))) <$> ms.

(** A request that empties or discards [p]'s queue: a valid poll by [p], or
    a valid leave by [p]. *)
Definition discards (req : request) (p : string) : bool :=
  match req with
  | Poll x => bool_decide (truthy x = Some p)
  | Leave r x => bool_decide (is_Some (truthy r) ∧ truthy x = Some p)
  | _ => false
  end.






(** *** Sample runs *)





End Server.

(** ** The client: [public/script.js]

    The functions that manage the peer connections and the outgoing media
    source.  Browser objects are modelled by the part of their state the
    script reads or changes:
    - a [MediaStreamTrack] is an identity and a kind; whether it has been
      stopped is kept in the client state ([ended]), because the same track
      object is reachable from a stream and from the senders of every
      connection;
    - an [RTCPeerConnection] is its list of senders, its two descriptions
      and the candidates passed to it.  [removeTrack] clears the track of a
      sender and leaves the sender in [getSenders()]; [addTrack] reuses a
      sender without track of the same kind that was never used to send, and
      otherwise adds a sender (WebRTC 1.0, section 5.1).  A [MediaStream]
      holds each track once, so [addTrack] does not meet a track that
      already has a sender after the senders were cleared.
    An [async] function is modelled as one step; what the browser or the
    network answers during the step is an argument of the function. *)

Module Client.
Import Wire.

Inductive kind : Type := Audio | Video.

#[global] Instance kind_eq_dec : EqDecision kind.
Proof. solve_decision. Defined.

Record track : Type := mkTrack {
  track_id : nat;
  track_kind : kind
}.

#[global] Instance track_eq_dec : EqDecision track.
Proof. solve_decision. Defined.

(** A [MediaStream] with the result of [getTracks()]. *)
Record stream : Type := mkStream {
  stream_id : nat;
  getTracks : list track
}.

Definition getVideoTracks (s : stream) : list track :=
  filter (λ t, track_kind t = Video) (getTracks s).

(** An [RTCRtpSender]: [sender.track], the kind of its transceiver, and
    whether it is still free for reuse by [addTrack]. *)
Record sender : Type := mkSender {
  sender_track : option track;
  sender_kind : kind;
  sender_unused : bool
}.

Record connection : Type := mkConnection {
  getSenders : list sender;
  localDescription : option value;
  remoteDescription : option value;
  iceCandidates : list value
}.

(** The outgoing tracks of a connection: the tracks of its senders. *)
Definition attached (pc : connection) : list track :=
  omap sender_track (getSenders pc).

Definition set_senders (ss : list sender) (pc : connection) : connection :=
  {| getSenders := ss;
     localDescription := localDescription pc;
     remoteDescription := remoteDescription pc;
     iceCandidates := iceCandidates pc |}.

(** [pc.removeTrack(sender)] *)
Definition removeTrack (s : sender) : sender :=
  {| sender_track := None; sender_kind := sender_kind s; sender_unused := sender_unused s |}.

Definition reusable (k : kind) (s : sender) : bool :=
  bool_decide (sender_track s = None) && bool_decide (sender_kind s = k) && sender_unused s.

Fixpoint attach (t : track) (ss : list sender) : list sender :=
  match ss with
  | [] => [{| sender_track := Some t; sender_kind := track_kind t; sender_unused := true |}]
  | s :: rest =>
      if reusable (track_kind t) s
      then {| sender_track := Some t; sender_kind := sender_kind s;
              sender_unused := sender_unused s |} :: rest
      else s :: attach t rest
  end.

(** [pc.addTrack(track, stream)] *)
Definition addTrack (pc : connection) (t : track) : connection :=
  set_senders (attach t (getSenders pc)) pc.

(** The globals of the script, the page elements it writes, and what it
    leaves in the browser: stopped tracks, listeners, console lines, alerts
    and the bodies posted to [/api/send]. *)
Record state : Type := mkClient {
  peerId : string;
  roomId : option string;
  localStream : option stream;
  screenStream : option stream;
  currentStream : option stream;
  peers : list (string * connection);
  polling : bool;
  joinBtn_disabled : bool;
  localVideo : option stream;
  remoteVideos : list string;
  toggleScreenShareBtn : string;
  ended : gset nat;
  endedListeners : list nat;
  console : list string;
  alerts : list string;
  outbox : list (string * Msg)
}.

Definition set_streams (l s c v : option stream) (st : state) : state :=
  {| peerId := peerId st; roomId := roomId st; localStream := l;
     screenStream := s; currentStream := c; peers := peers st;
     polling := polling st; joinBtn_disabled := joinBtn_disabled st;
     localVideo := v; remoteVideos := remoteVideos st;
     toggleScreenShareBtn := toggleScreenShareBtn st; ended := ended st;
     endedListeners := endedListeners st; console := console st;
     alerts := alerts st; outbox := outbox st |}.

Definition set_peers (ps : list (string * connection)) (st : state) : state :=
  {| peerId := peerId st; roomId := roomId st;
     localStream := localStream st; screenStream := screenStream st;
     currentStream := currentStream st; peers := ps; polling := polling st;
     joinBtn_disabled := joinBtn_disabled st; localVideo := localVideo st;
     remoteVideos := remoteVideos st;
     toggleScreenShareBtn := toggleScreenShareBtn st; ended := ended st;
     endedListeners := endedListeners st; console := console st;
     alerts := alerts st; outbox := outbox st |}.

Definition set_roomId (r : option string) (st : state) : state :=
  {| peerId := peerId st; roomId := r; localStream := localStream st;
     screenStream := screenStream st; currentStream := currentStream st;
     peers := peers st; polling := polling st;
     joinBtn_disabled := joinBtn_disabled st; localVideo := localVideo st;
     remoteVideos := remoteVideos st;
     toggleScreenShareBtn := toggleScreenShareBtn st; ended := ended st;
     endedListeners := endedListeners st; console := console st;
     alerts := alerts st; outbox := outbox st |}.

Definition set_polling (b : bool) (st : state) : state :=
  {| peerId := peerId st; roomId := roomId st;
     localStream := localStream st; screenStream := screenStream st;
     currentStream := currentStream st; peers := peers st; polling := b;
     joinBtn_disabled := joinBtn_disabled st; localVideo := localVideo st;
     remoteVideos := remoteVideos st;
     toggleScreenShareBtn := toggleScreenShareBtn st; ended := ended st;
     endedListeners := endedListeners st; console := console st;
     alerts := alerts st; outbox := outbox st |}.

Definition set_joinBtn_disabled (b : bool) (st : state) : state :=
  {| peerId := peerId st; roomId := roomId st;
     localStream := localStream st; screenStream := screenStream st;
     currentStream := currentStream st; peers := peers st;
     polling := polling st; joinBtn_disabled := b;
     localVideo := localVideo st; remoteVideos := remoteVideos st;
     toggleScreenShareBtn := toggleScreenShareBtn st; ended := ended st;
     endedListeners := endedListeners st; console := console st;
     alerts := alerts st; outbox := outbox st |}.

Definition set_remoteVideos (vs : list string) (st : state) : state :=
  {| peerId := peerId st; roomId := roomId st;
     localStream := localStream st; screenStream := screenStream st;
     currentStream := currentStream st; peers := peers st;
     polling := polling st; joinBtn_disabled := joinBtn_disabled st;
     localVideo := localVideo st; remoteVideos := vs;
     toggleScreenShareBtn := toggleScreenShareBtn st; ended := ended st;
     endedListeners := endedListeners st; console := console st;
     alerts := alerts st; outbox := outbox st |}.

Definition set_label (text : string) (st : state) : state :=
  {| peerId := peerId st; roomId := roomId st;
     localStream := localStream st; screenStream := screenStream st;
     currentStream := currentStream st; peers := peers st;
     polling := polling st; joinBtn_disabled := joinBtn_disabled st;
     localVideo := localVideo st; remoteVideos := remoteVideos st;
     toggleScreenShareBtn := text; ended := ended st;
     endedListeners := endedListeners st; console := console st;
     alerts := alerts st; outbox := outbox st |}.

(** [track.stop()] on each of [ts]. *)
Definition stop_tracks (ts : list track) (st : state) : state :=
  {| peerId := peerId st; roomId := roomId st;
     localStream := localStream st; screenStream := screenStream st;
     currentStream := currentStream st; peers := peers st;
     polling := polling st; joinBtn_disabled := joinBtn_disabled st;
     localVideo := localVideo st; remoteVideos := remoteVideos st;
     toggleScreenShareBtn := toggleScreenShareBtn st;
     ended := ended st ∪ list_to_set (track_id <$> ts);
     endedListeners := endedListeners st; console := console st;
     alerts := alerts st; outbox := outbox st |}.

Definition add_listener (t : track) (st : state) : state :=
  {| peerId := peerId st; roomId := roomId st;
     localStream := localStream st; screenStream := screenStream st;
     currentStream := currentStream st; peers := peers st;
     polling := polling st; joinBtn_disabled := joinBtn_disabled st;
     localVideo := localVideo st; remoteVideos := remoteVideos st;
     toggleScreenShareBtn := toggleScreenShareBtn st; ended := ended st;
     endedListeners := endedListeners st ++ [track_id t];
     console := console st; alerts := alerts st; outbox := outbox st |}.

(** [console.error] and [console.warn]. *)
Definition log (line : string) (st : state) : state :=
  {| peerId := peerId st; roomId := roomId st;
     localStream := localStream st; screenStream := screenStream st;
     currentStream := currentStream st; peers := peers st;
     polling := polling st; joinBtn_disabled := joinBtn_disabled st;
     localVideo := localVideo st; remoteVideos := remoteVideos st;
     toggleScreenShareBtn := toggleScreenShareBtn st; ended := ended st;
     endedListeners := endedListeners st; console := console st ++ [line];
     alerts := alerts st; outbox := outbox st |}.

(** [alert(...)]. *)
Definition alert (text : string) (st : state) : state :=
  {| peerId := peerId st; roomId := roomId st;
     localStream := localStream st; screenStream := screenStream st;
     currentStream := currentStream st; peers := peers st;
     polling := polling st; joinBtn_disabled := joinBtn_disabled st;
     localVideo := localVideo st; remoteVideos := remoteVideos st;
     toggleScreenShareBtn := toggleScreenShareBtn st; ended := ended st;
     endedListeners := endedListeners st; console := console st;
     alerts := alerts st ++ [text]; outbox := outbox st |}.

(** A body posted to [/api/send]. *)
Definition post (to : string) (m : Msg) (st : state) : state :=
  {| peerId := peerId st; roomId := roomId st;
     localStream := localStream st; screenStream := screenStream st;
     currentStream := currentStream st; peers := peers st;
     polling := polling st; joinBtn_disabled := joinBtn_disabled st;
     localVideo := localVideo st; remoteVideos := remoteVideos st;
     toggleScreenShareBtn := toggleScreenShareBtn st; ended := ended st;
     endedListeners := endedListeners st; console := console st;
     alerts := alerts st; outbox := outbox st ++ [(to, m)] |}.

(** How a call ends: it returns, or an exception leaves it. *)
Inductive outcome : Type :=
  | Returned
  | Thrown (error : string).

(** [peers] is an object keyed by peer identifier; [Object.values] and
    [Object.keys] walk it in insertion order.  [peers[id]], [peers[id] = pc]
    and [delete peers[id]]: *)
Fixpoint lookup_peer (id : string) (ps : list (string * connection))
  : option connection :=
  match ps with
  | [] => None
  | (k, pc) :: rest => if decide (k = id) then Some pc else lookup_peer id rest
  end.

Fixpoint set_peer (id : string) (pc : connection) (ps : list (string * connection))
  : list (string * connection) :=
  match ps with
  | [] => [(id, pc)]
  | (k, old) :: rest =>
      if decide (k = id) then (k, pc) :: rest else (k, old) :: set_peer id pc rest
  end.

Definition delete_peer (id : string) (ps : list (string * connection))
  : list (string * connection) :=
  filter (λ e, e.1 ≠ id) ps.

(** [function createPeerConnection(remotePeerId)]: the new connection.  Its
    three callbacks are the functions [onicecandidate], [ontrack] and
    [onconnectionstatechange] below. *)
Definition createPeerConnection : connection :=
  {| getSenders := []; localDescription := None; remoteDescription := None;
     iceCandidates := [] |}.

(** [function cleanupPeer(remotePeerId)] *)
Definition cleanupPeer (st : state) (remotePeerId : string) : state :=
  let st1 :=
    match lookup_peer remotePeerId (peers st) with
    | Some _ => set_peers (delete_peer remotePeerId (peers st)) st
    | None => st
    end in
  set_remoteVideos (filter (λ v, v ≠ remotePeerId) (remoteVideos st1)) st1.

(** [async function startLocalStream()]; [media] is what
    [getUserMedia] resolves to, [None] when it rejects. *)
Definition startLocalStream (st : state) (media : option stream) : state * outcome :=
  match media with
  | Some s => (set_streams (Some s) (screenStream st) (Some s) (Some s) st, Returned)
  | None => (st, Thrown "getUserMedia")
  end.

(** The body of the outer [forEach] of [replaceTracks] for one connection:
    every sender with a track has the track stopped and is removed, then the
    tracks of [stream] are added; [stream.getTracks()] throws when [stream]
    is [null]. *)
Definition clear_senders (pc : connection) : connection :=
  set_senders
    ((λ s, match sender_track s with Some _ => removeTrack s | None => s end)
       <$> getSenders pc) pc.

Definition replace_on (stream : option stream) (pc : connection) : connection * outcome :=
  match stream with
  | Some s => (foldl addTrack (clear_senders pc) (getTracks s), Returned)
  | None => (clear_senders pc, Thrown "TypeError")
  end.

(** The loop over [Object.values(peers)]: the connections afterwards, the
    tracks that were stopped, and how the loop ended.  An exception ends the
    loop and leaves the later connections untouched. *)
Fixpoint replace_each (stream : option stream) (ps : list (string * connection))
  : list (string * connection) * list track * outcome :=
  match ps with
  | [] => ([], [], Returned)
  | (id, pc) :: rest =>
      match replace_on stream pc with
      | (pc', Returned) =>
          let '(rest', stopped, o) := replace_each stream rest in
          ((id, pc') :: rest', attached pc ++ stopped, o)
      | (pc', Thrown e) => ((id, pc') :: rest, attached pc, Thrown e)
      end
  end.

(** [function replaceTracks(stream)] *)
Definition replaceTracks (st : state) (stream : option stream) : state * outcome :=
  let '(ps, stopped, o) := replace_each stream (peers st) in
  (set_peers ps (stop_tracks stopped st), o).

(** [function stopScreenShare()] *)
Definition stopScreenShare (st : state) : state * outcome :=
  match screenStream st with
  | Some scr =>
      let st1 := stop_tracks (getTracks scr) st in
      let st2 := set_streams (localStream st1) None (localStream st1) (localStream st1) st1 in
      match replaceTracks st2 (currentStream st2) with
      | (st3, Returned) => (set_label "Toggle Screen Share" st3, Returned)
      | (st3, Thrown e) => (st3, Thrown e)
      end
  | None => (st, Returned)
  end.

(** [async function toggleScreenShare()]; [display] is what
    [getDisplayMedia] resolves to, [None] when it rejects.  Everything in the
    [try] block that throws ends in the [catch], which logs. *)
Definition toggleScreenShare (st : state) (display : option stream) : state * outcome :=
  match screenStream st with
  | None =>
      match display with
      | None => (log "Error starting screen share" st, Returned)
      | Some scr =>
          let st1 := set_streams (localStream st) (Some scr) (currentStream st) (localVideo st) st in
          match getVideoTracks scr with
          | [] => (log "Error starting screen share" st1, Returned)
          | v :: _ =>
              let st2 := add_listener v st1 in
              let st3 := set_streams (localStream st2) (screenStream st2)
                           (screenStream st2) (screenStream st2) st2 in
              match replaceTracks st3 (currentStream st3) with
              | (st4, Returned) => (set_label "Stop Screen Share" st4, Returned)
              | (st4, Thrown _) => (log "Error starting screen share" st4, Returned)
              end
          end
      end
  | Some _ => stopScreenShare st
  end.

(** The ['ended'] listener registered by [toggleScreenShare]: the browser
    ends the track [t] and calls the listeners of [t]. *)
Definition onended (st : state) (t : track) : state * outcome :=
  let st1 := stop_tracks [t] st in
  if decide (track_id t ∈ endedListeners st1) then stopScreenShare st1 else (st1, Returned).

(** [async function sendMessage(to, type, data)]; [net] tells whether the
    [fetch] succeeds. *)
Definition sendMessage (st : state) (to type : string) (data : value) (net : bool)
  : state :=
  if net then post to {| type := type; data := data; from := peerId st |} st
  else log "Send message failed" st.

(** Attaching the tracks of [currentStream] to the new connection of
    [remotePeerId]: [currentStream.getTracks().forEach(...)]. *)
Definition attach_current (st : state) (remotePeerId : string) (pc : connection)
  : state * outcome :=
  match currentStream st with
  | Some s =>
      (set_peers (set_peer remotePeerId (foldl addTrack pc (getTracks s)) (peers st)) st,
       Returned)
  | None => (st, Thrown "TypeError")
  end.

Definition update_peer (st : state) (remotePeerId : string)
    (f : connection → connection) : state :=
  match lookup_peer remotePeerId (peers st) with
  | Some pc => set_peers (set_peer remotePeerId (f pc) (peers st)) st
  | None => st
  end.

Definition set_local (d : value) (pc : connection) : connection :=
  {| getSenders := getSenders pc; localDescription := Some d;
     remoteDescription := remoteDescription pc; iceCandidates := iceCandidates pc |}.

Definition set_remote (d : value) (pc : connection) : connection :=
  {| getSenders := getSenders pc; localDescription := localDescription pc;
     remoteDescription := Some d; iceCandidates := iceCandidates pc |}.

Definition add_candidate (c : value) (pc : connection) : connection :=
  {| getSenders := getSenders pc; localDescription := localDescription pc;
     remoteDescription := remoteDescription pc;
     iceCandidates := iceCandidates pc ++ [c] |}.

(** [async function callPeer(remotePeerId)]; [offer] is what
    [pc.createOffer()] resolves to. *)
Definition callPeer (st : state) (remotePeerId : string) (offer : value) (net : bool)
  : state * outcome :=
  match lookup_peer remotePeerId (peers st) with
  | Some _ => (st, Returned)
  | None =>
      let pc := createPeerConnection in
      let st1 := set_peers (set_peer remotePeerId pc (peers st)) st in
      match attach_current st1 remotePeerId pc with
      | (st2, Returned) =>
          let st3 := update_peer st2 remotePeerId (set_local offer) in
          (sendMessage st3 remotePeerId "offer" offer net, Returned)
      | (st2, Thrown e) => (st2, Thrown e)
      end
  end.

(** [async function answerCall(remotePeerId, offer)]; [answer] is what
    [pc.createAnswer()] resolves to. *)
Definition answerCall (st : state) (remotePeerId : string) (offer answer : value)
    (net : bool) : state * outcome :=
  let created :=
    match lookup_peer remotePeerId (peers st) with
    | Some _ => (st, Returned)
    | None =>
        let pc := createPeerConnection in
        let st1 := set_peers (set_peer remotePeerId pc (peers st)) st in
        attach_current st1 remotePeerId pc
    end in
  match created with
  | (st2, Returned) =>
      let st3 := update_peer st2 remotePeerId (set_remote offer) in
      let st4 := update_peer st3 remotePeerId (set_local answer) in
      (sendMessage st4 remotePeerId "answer" answer net, Returned)
  | (st2, Thrown e) => (st2, Thrown e)
  end.

(** [async function acceptAnswer(remotePeerId, answer)] *)
Definition acceptAnswer (st : state) (remotePeerId : string) (answer : value) : state :=
  update_peer st remotePeerId (set_remote answer).

(** [function addIceCandidate(remotePeerId, candidate)]; [accepted] tells
    whether the promise of [pc.addIceCandidate] resolves; when it rejects the
    [catch] logs. *)
Definition addIceCandidate (st : state) (remotePeerId : string) (candidate : value)
    (accepted : bool) : state :=
  match lookup_peer remotePeerId (peers st) with
  | Some pc =>
      let st1 := set_peers (set_peer remotePeerId (add_candidate candidate pc) (peers st)) st in
      if accepted then st1 else log "ICE error" st1
  | None => st
  end.

(** What the browser and the network answer while one message is handled. *)
Record answers : Type := mkAnswers {
  description : value;
  net_ok : bool;
  ice_ok : bool
}.

(** [async function handleMessage(msg)] *)
Definition handleMessage (st : state) (msg : Msg) (env : answers) : state * outcome :=
  if decide (type msg = "peer-connected") then
    callPeer st (from msg) (description env) (net_ok env)
  else if decide (type msg = "peer-disconnected") then
    (cleanupPeer st (from msg), Returned)
  else if decide (type msg = "offer") then
    answerCall st (from msg) (data msg) (description env) (net_ok env)
  else if decide (type msg = "answer") then
    (acceptAnswer st (from msg) (data msg), Returned)
  else if decide (type msg = "ice-candidate") then
    (addIceCandidate st (from msg) (data msg) (ice_ok env), Returned)
  else
    (log "Unknown message type" st, Returned).

(** The loop [for (const otherId of existingPeers) await callPeer(otherId)];
    [env] gives what the browser and the network answer for each peer. *)
Fixpoint call_each (st : state) (ids : list string) (env : string → answers)
  : state * outcome :=
  match ids with
  | [] => (st, Returned)
  | otherId :: rest =>
      match callPeer st otherId (description (env otherId)) (net_ok (env otherId)) with
      | (st1, Returned) => call_each st1 rest env
      | (st1, Thrown e) => (st1, Thrown e)
      end
  end.

(** [async function joinRoom()]; [room] is [roomInput.value.trim()],
    [media] what [getUserMedia] resolves to, [joined] the [existingPeers] of
    the server's answer ([[]] when the answer has none), [None] when the
    request or the decoding of its answer fails. *)
Definition joinRoom (st : state) (room : string) (media : option stream)
    (joined : option (list string)) (env : string → answers) : state * outcome :=
  let st1 := set_roomId (Some room) st in
  if decide (room = "") then (alert "Please enter a room ID" st1, Returned)
  else
    let st2 := set_joinBtn_disabled true st1 in
    match startLocalStream st2 media with
    | (st3, Returned) =>
        match joined with
        | Some existingPeers =>
            let st4 := if polling st3 then st3 else set_polling true st3 in
            match call_each st4 existingPeers env with
            | (st5, Returned) => (st5, Returned)
            | (st5, Thrown _) => (log "Join failed" st5, Returned)
            end
        | None => (log "Join failed" st3, Returned)
        end
    | (st3, Thrown e) => (st3, Thrown e)
    end.

(** [!roomId] for the global [roomId]. *)
Definition in_room (st : state) : bool :=
  match roomId st with
  | Some r => bool_decide (r ≠ "")
  | None => false
  end.

(** The click handler of the join button: [if (!roomId) joinRoom()]. *)
Definition onJoinClick (st : state) (room : string) (media : option stream)
    (joined : option (list string)) (env : string → answers) : state * outcome :=
  if in_room st then (st, Returned) else joinRoom st room media joined env.

(** [async function leaveRoom()]; [net] tells whether the [fetch] of
    [/api/leave] succeeds. *)
Definition leaveRoom (st : state) (net : bool) : state * outcome :=
  if in_room st then
    let st1 := if net then st else log "Leave failed" st in
    let st2 := foldl cleanupPeer st1 (peers st1).*1 in
    let st3 :=
      match localStream st2 with
      | Some l =>
          set_streams None (screenStream st2) (currentStream st2) (localVideo st2)
            (stop_tracks (getTracks l) st2)
      | None => st2
      end in
    match stopScreenShare st3 with
    | (st4, Returned) =>
        (set_polling false
           (set_joinBtn_disabled false
              (set_roomId None
                 (set_streams (localStream st4) (screenStream st4) None
                    (localVideo st4) st4))),
         Returned)
    | (st4, Thrown e) => (st4, Thrown e)
    end
  else (st, Returned).

(** The loop [for (const msg of messages) await handleMessage(msg)]. *)
Fixpoint handle_each (st : state) (msgs : list Msg) (env : Msg → answers)
  : state * outcome :=
  match msgs with
  | [] => (st, Returned)
  | msg :: rest =>
      match handleMessage st msg (env msg) with
      | (st1, Returned) => handle_each st1 rest env
      | (st1, Thrown e) => (st1, Thrown e)
      end
  end.

(** One turn of the loop of [async function pollMessages()]; [batch] is the
    [messages] of the server's answer, [None] when the request fails. *)
Definition pollMessages (st : state) (batch : option (list Msg)) (env : Msg → answers)
  : state :=
  if polling st then
    match batch with
    | Some msgs =>
        match handle_each st msgs env with
        | (st1, Returned) => st1
        | (st1, Thrown _) => log "Polling error" st1
        end
    | None => log "Polling error" st
    end
  else st.

(** The callbacks installed by [createPeerConnection]. *)
Definition onicecandidate (st : state) (remotePeerId : string)
    (candidate : option value) (net : bool) : state :=
  match candidate with
  | Some c => sendMessage st remotePeerId "ice-candidate" c net
  | None => st
  end.

Definition ontrack (st : state) (remotePeerId : string) : state :=
  if decide (remotePeerId ∈ remoteVideos st) then st
  else set_remoteVideos (remoteVideos st ++ [remotePeerId]) st.

Definition onconnectionstatechange (st : state) (remotePeerId : string)
    (connectionState : string) : state :=
  if decide (connectionState ∈ ["disconnected"; "failed"; "closed"])
  then cleanupPeer st remotePeerId
  else st.

(** The browser completes an offer/answer exchange on a connection: the
    senders that hold a track have now been used to send. *)
Definition negotiated (pc : connection) : connection :=
  set_senders
    ((λ s, match sender_track s with
           | Some _ => {| sender_track := sender_track s; sender_kind := sender_kind s;
                          sender_unused := false |}
           | None => s
           end) <$> getSenders pc) pc.

(** What can happen to the client, and the state after it.  The first
    events are single calls of the functions above; [JoinClick] and
    [BeforeUnload] are the two handlers that join and leave a room,
    [PollMessages] is one turn of the polling loop, and [Negotiated] is the
    browser's doing. *)
Inductive event : Type :=
  | StartLocalStream (media : option stream)
  | ToggleScreenShare (display : option stream)
  | Ended (t : track)
  | HandleMessage (msg : Msg) (env : answers)
  | CallPeer (remotePeerId : string) (offer : value) (net : bool)
  | IceCandidate (remotePeerId : string) (candidate : option value) (net : bool)
  | Track (remotePeerId : string)
  | ConnectionStateChange (remotePeerId : string) (connectionState : string)
  | Negotiated (remotePeerId : string)
  | JoinClick (room : string) (media : option stream) (joined : option (list string))
              (env : string → answers)
  | BeforeUnload (net : bool)
  | PollMessages (batch : option (list Msg)) (env : Msg → answers).

Definition react (st : state) (ev : event) : state :=
  match ev with
  | StartLocalStream media => (startLocalStream st media).1
  | ToggleScreenShare display => (toggleScreenShare st display).1
  | Ended t => (onended st t).1
  | HandleMessage msg env => (handleMessage st msg env).1
  | CallPeer remotePeerId offer net => (callPeer st remotePeerId offer net).1
  | IceCandidate remotePeerId candidate net => onicecandidate st remotePeerId candidate net
  | Track remotePeerId => ontrack st remotePeerId
  | ConnectionStateChange remotePeerId connectionState =>
      onconnectionstatechange st remotePeerId connectionState
  | Negotiated remotePeerId => update_peer st remotePeerId negotiated
  | JoinClick room media joined env => (onJoinClick st room media joined env).1
  | BeforeUnload net => (leaveRoom st net).1
  | PollMessages batch env => pollMessages st batch env
  end.

(** All tracks attached to some live connection. *)
Definition outgoing (st : state) : list track :=
  peers st ≫= λ e, attached e.2.


(** The constraints built by [async function getUserMediaStream()];
    [res] and [fps] are the results of the two [parseInt] calls, [None] for
    [NaN]. *)
Record constraints : Type := mkConstraints {
  audio : bool;
  width_ideal : Z;
  height_ideal : Z;
  frameRate_ideal : option Z
}.

Definition getUserMediaStream_constraints (res fps : option Z) : constraints :=
  {| audio := true;
     width_ideal :=
       if decide (res = Some 2160%Z) then 3840%Z
       else if decide (res = Some 1080%Z) then 1920%Z else 1280%Z;
     height_ideal :=
       if decide (res = Some 2160%Z) then 2160%Z
       else if decide (res = Some 1080%Z) then 1080%Z else 720%Z;
     frameRate_ideal := fps |}.

(** The tracks of the current source, none when there is no source. *)
Definition source_tracks (st : state) : list track :=
  match currentStream st with
  | Some s => getTracks s
  | None => []
  end.

(** Every live connection carries exactly the tracks of the current
    source. *)
Definition in_sync (st : state) : Prop :=
  Forall (λ e, attached e.2 ≡ₚ source_tracks st) (peers st).

(** The events that neither acquire a new camera stream nor leave the
    room. *)
Definition keeps_source (ev : event) : bool :=
  match ev with
  | StartLocalStream _ | JoinClick _ _ _ _ | BeforeUnload _ => false
  | _ => true
  end.

(** *** Sample states *)

Definition blank : state :=
  {| peerId := "me"; roomId := None; localStream := None; screenStream := None;
     currentStream := None; peers := []; polling := false;
     joinBtn_disabled := false; localVideo := None; remoteVideos := [];
     toggleScreenShareBtn := "Toggle Screen Share"; ended := ∅;
     endedListeners := []; console := []; alerts := []; outbox := [] |}.

Definition camera : stream := mkStream 1 [mkTrack 1 Audio; mkTrack 2 Video].
Definition screen : stream := mkStream 2 [mkTrack 3 Video].

(** The client joined the lobby where Bob was, called him, and answered
    the offer of Carol, who joined later. *)
Definition in_call : state :=
  foldl react blank
    [ JoinClick "lobby" (Some camera) (Some ["bob"])
                (λ _, mkAnswers (VStr "offer") true true);
      PollMessages (Some [mkMsg "offer" (VStr "sdp") "carol"])
                   (λ _, mkAnswers (VStr "answer") true true);
      Negotiated "carol" ].

(** The client is polling but holds no source. *)
Definition without_source : state := set_streams None None None None in_call.

(** The client shares its screen after its local stream was released. *)
Definition sharing_without_camera : state :=
  set_streams None (Some screen) (Some screen) (Some screen) in_call.

End Client.

(** ** The client and the server together *)

Module Exchange.
Import Wire.






End Exchange.

(** ** Properties of the server *)

Section ServerFacts.
Import Wire Server.

Implicit Types (st : state) (mq : gmap string (list Msg)) (m : Msg).
Implicit Types (p q r : string) (l : list string).

























(** *** What each handler does to the maps *)










Lemma sends_not_discarding p ms q : Forall (λ req, discards req q = false) (sends p ms).
Proof. unfold sends. rewrite Forall_fmap. by apply Forall_true. Qed.





(** *** Room membership over a run *)







(** *** Sending *)




(** *** Duplicate joins *)


End ServerFacts.

(** ** Properties of the client *)

Section ClientFacts.
Import Wire Client.

Implicit Types (st : Client.state) (pc : connection) (t : track).
Implicit Types (ps : list (string * connection)) (id : string).

Lemma attached_attach t (ss : list sender) :
  omap sender_track (attach t ss) ≡ₚ t :: omap sender_track ss.
Proof.
  induction ss as [|s ss IH]; simpl; [done|].
  destruct (reusable (track_kind t) s) eqn:E; simpl.
  - unfold reusable in E. apply andb_prop in E as [E _]. apply andb_prop in E as [E _].
    apply bool_decide_eq_true in E. by rewrite E.
  - destruct (sender_track s) as [t0|]; [|done].
    rewrite IH. apply Permutation_swap.
Qed.

Lemma attached_addTrack pc t : attached (addTrack pc t) ≡ₚ t :: attached pc.
Proof. apply attached_attach. Qed.

Lemma attached_foldl_addTrack (ts : list track) pc :
  attached (foldl addTrack pc ts) ≡ₚ attached pc ++ ts.
Proof.
  revert pc. induction ts as [|t ts IH]; intros pc; simpl.
  - by rewrite app_nil_r.
  - rewrite IH, attached_addTrack. simpl. apply Permutation_middle.
Qed.

Lemma attached_clear_senders pc : attached (clear_senders pc) = [].
Proof.
  unfold attached, clear_senders; simpl.
  induction (getSenders pc) as [|s ss IH]; [done|].
  rewrite fmap_cons. cbn [omap list_omap].
  destruct (sender_track s) eqn:E; simpl; [done|]. by rewrite E.
Qed.

(** After the body of the loop has run for a connection with a stream at
    hand, the connection carries exactly the tracks of the stream. *)
Lemma attached_replace_on (s : stream) pc :
  attached (replace_on (Some s) pc).1 ≡ₚ getTracks s.
Proof.
  simpl. by rewrite attached_foldl_addTrack, attached_clear_senders.
Qed.


Lemma replace_each_Some (s : stream) ps :
  replace_each (Some s) ps =
    (prod_map id (λ pc, (replace_on (Some s) pc).1) <$> ps,
     ps ≫= (λ e, attached e.2), Returned).
Proof.
  induction ps as [|[id pc] ps IH]; [done|].
  simpl in *. by rewrite IH.
Qed.


Lemma lookup_peer_elem_of (key : string) pc ps :
  lookup_peer key ps = Some pc → (key, pc) ∈ ps.
Proof.
  induction ps as [|[k pc'] ps IH]; [done|]. simpl.
  destruct (decide (k = key)) as [->|_].
  - intros [= ->]. apply elem_of_cons. by left.
  - intros H. apply elem_of_cons. right. by apply IH.
Qed.

Lemma replaceTracks_Some st (s : stream) :
  replaceTracks st (Some s) =
    (set_peers (prod_map id (λ pc, (replace_on (Some s) pc).1) <$> peers st)
               (stop_tracks (outgoing st) st), Returned).
Proof. unfold replaceTracks. by rewrite replace_each_Some. Qed.

(** A successful switch to the screen source, step by step. *)
Lemma toggleScreenShare_on st (scr : stream) v (vs : list track) :
  screenStream st = None →
  getVideoTracks scr = v :: vs →
  toggleScreenShare st (Some scr) =
    (set_label "Stop Screen Share"
       (set_peers (prod_map id (λ pc, (replace_on (Some scr) pc).1) <$> peers st)
          (stop_tracks (outgoing st)
             (set_streams (localStream st) (Some scr) (Some scr) (Some scr)
                (add_listener v st)))),
     Returned).
Proof.
  intros Hs Hv. unfold toggleScreenShare. rewrite Hs, Hv. simpl.
  by rewrite replaceTracks_Some.
Qed.

(** The switch back, when a camera source is at hand. *)
Lemma stopScreenShare_back st (scr cam : stream) :
  screenStream st = Some scr →
  localStream st = Some cam →
  stopScreenShare st =
    (set_label "Toggle Screen Share"
       (set_peers (prod_map id (λ pc, (replace_on (Some cam) pc).1) <$> peers st)
          (stop_tracks (outgoing st)
             (set_streams (Some cam) None (Some cam) (Some cam)
                (stop_tracks (getTracks scr) st)))),
     Returned).
Proof.
  intros Hs Hl. unfold stopScreenShare. rewrite Hs. simpl. rewrite Hl.
  by rewrite replaceTracks_Some.
Qed.

Lemma toggleScreenShare_off st (scr : stream) (display : option stream) :
  screenStream st = Some scr → toggleScreenShare st display = stopScreenShare st.
Proof. intros Hs. unfold toggleScreenShare. by rewrite Hs. Qed.

(** *** A stopped track stays stopped *)





















Lemma carries_replace st (s : stream) :
  Forall (λ e, attached e.2 ≡ₚ getTracks s)
         (prod_map id (λ pc, (replace_on (Some s) pc).1) <$> peers st).
Proof.
  rewrite Forall_fmap. apply Forall_true. intros [k pc].
  apply attached_replace_on.
Qed.


(** *** Switching the media source *)


(** C8.  When the screen-capture request is rejected, the call returns
    after logging the failure and nothing else changes: the sources, the
    connections with their tracks, the preview and the button label are as
    before. *)
Theorem rejected_capture_changes_nothing st :
  screenStream st = None →
  let st' := (toggleScreenShare st None).1 in
  (toggleScreenShare st None).2 = Returned ∧
  st' = log "Error starting screen share" st ∧
  console st' = console st ++ ["Error starting screen share"] ∧
  currentStream st' = currentStream st ∧
  screenStream st' = screenStream st ∧
  localStream st' = localStream st ∧
  peers st' = peers st ∧
  (∀ key, attached <$> lookup_peer key (peers st') = attached <$> lookup_peer key (peers st)) ∧
  toggleScreenShareBtn st' = toggleScreenShareBtn st ∧
  localVideo st' = localVideo st ∧
  ended st' = ended st ∧
  endedListeners st' = endedListeners st ∧
  outbox st' = outbox st.
Proof.
  intros Hs st'. subst st'. unfold toggleScreenShare. rewrite Hs. simpl.
  by split_and!.
Qed.

(** *** Candidates *)






(** *** Stopped camera tracks *)


End ClientFacts.

(** ** The theorems at work on sample runs *)

Section Samples.
Import Wire.









(** The capture request is rejected while the client is in a call. *)
Lemma rejected_capture_changes_nothing_sample :
  Client.screenStream Client.in_call = None ∧
  (Client.toggleScreenShare Client.in_call None).2 = Client.Returned ∧
  Client.console (Client.toggleScreenShare Client.in_call None).1
    = ["Error starting screen share"] ∧
  Client.peers (Client.toggleScreenShare Client.in_call None).1
    = Client.peers Client.in_call ∧
  Client.toggleScreenShareBtn (Client.toggleScreenShare Client.in_call None).1
    = "Toggle Screen Share".
Proof.
  destruct (rejected_capture_changes_nothing Client.in_call eq_refl)
    as (Hret & _ & Hlog & _ & _ & _ & Hpeers & _ & Hlabel & _).
  split_and!; [reflexivity|exact Hret|exact Hlog|exact Hpeers|exact Hlabel].
Defined.



End Samples.

(** ** Further properties of the server *)

Section ServerMore.
Import Wire Server.

Implicit Types (st : Server.state) (mq : gmap string (list Msg)) (m : Msg).
Implicit Types (p q r : string) (l : list string).














End ServerMore.

(** ** Further properties of the client *)

Section ClientMore.
Import Wire Client.

Implicit Types (st : Client.state) (pc : connection) (t : track).
Implicit Types (ps : list (string * connection)) (key : string).

(** *** Connections come and go *)



Lemma delete_peer_absent key ps :
  lookup_peer key ps = None → delete_peer key ps = ps.
Proof.
  unfold delete_peer. induction ps as [|[k pc] ps IH]; [done|]. simpl.
  destruct (decide (k = key)) as [->|Hne]; [done|].
  intros H. rewrite filter_cons_True by done. by rewrite IH.
Qed.

Lemma peers_cleanupPeer st key :
  peers (cleanupPeer st key) = delete_peer key (peers st).
Proof.
  unfold cleanupPeer. destruct (lookup_peer key (peers st)) eqn:E; simpl; [done|].
  by rewrite delete_peer_absent.
Qed.

Lemma set_peer_set_peer key pc pc' ps :
  set_peer key pc (set_peer key pc' ps) = set_peer key pc ps.
Proof.
  induction ps as [|[k old] ps IH]; simpl.
  - by destruct (decide (key = key)).
  - destruct (decide (k = key)) as [->|Hne]; simpl.
    + by destruct (decide (key = key)).
    + destruct (decide (k = key)); [done|]. by rewrite IH.
Qed.






(** *** Messages *)


Lemma handle_each_app st (l1 l2 : list Msg) (env : Msg → answers) :
  handle_each st (l1 ++ l2) env =
    match handle_each st l1 env with
    | (st1, Returned) => handle_each st1 l2 env
    | (st1, Thrown e) => (st1, Thrown e)
    end.
Proof.
  revert st. induction l1 as [|m l1 IH]; intros st; simpl; [done|].
  destruct (handleMessage st m (env m)) as [st1 [|e]]; [apply IH|done].
Qed.

(** One turn of the polling loop handles the messages of a batch in order.
    When handling a message throws, the turn logs a polling error and the
    messages after it in the batch are never handled: the state is the one
    the throwing message left, whatever followed it.  When polling is off
    the batch is ignored. *)
Theorem failing_message_drops_rest_of_batch st (before after : list Msg) (msg : Msg)
    (env : Msg → answers) (e : string) :
  polling st = true →
  (handle_each st before env).2 = Returned →
  let st1 := (handle_each st before env).1 in
  (handleMessage st1 msg (env msg)).2 = Thrown e →
  pollMessages st (Some (before ++ msg :: after)) env
    = log "Polling error" (handleMessage st1 msg (env msg)).1 ∧
  pollMessages st (Some before) env = st1 ∧
  (∀ batch, pollMessages (set_polling false st) batch env = set_polling false st).
Proof.
  intros Hp Hb st1 Hm. subst st1. unfold pollMessages. rewrite Hp.
  rewrite handle_each_app.
  destruct (handle_each st before env) as [st1 o] eqn:E. simpl in *. subst o.
  split_and!; [|done|done].
  simpl. by destruct (handleMessage st1 msg (env msg)) as [st2 o2]; simpl in *; subst.
Qed.

(** *** Camera constraints *)

(** The camera is always requested with audio and in one of three
    resolutions, all of them 16:9.  Every selection other than 2160 and
    1080, an unreadable one included, asks for 1280 by 720. *)
Theorem camera_constraints_fall_back_to_720p (res fps : option Z) :
  let c := getUserMediaStream_constraints res fps in
  audio c = true ∧
  frameRate_ideal c = fps ∧
  (9 * width_ideal c = 16 * height_ideal c)%Z ∧
  (res = Some 2160%Z → width_ideal c = 3840%Z ∧ height_ideal c = 2160%Z) ∧
  (res = Some 1080%Z → width_ideal c = 1920%Z ∧ height_ideal c = 1080%Z) ∧
  (res ≠ Some 2160%Z → res ≠ Some 1080%Z →
     width_ideal c = 1280%Z ∧ height_ideal c = 720%Z).
Proof.
  intros c. subst c. simpl.
  destruct (decide (res = Some 2160%Z)) as [->|H1].
  { by split_and!. }
  destruct (decide (res = Some 1080%Z)) as [->|H2].
  { by split_and!. }
  by split_and!.
Qed.

(** *** Leaving *)

Lemma filter_all {A} (P : A → Prop) `{∀ x, Decision (P x)} (l : list A) :
  Forall P l → filter P l = l.
Proof.
  induction 1 as [|x l Hx _ IH]; [done|].
  rewrite filter_cons_True by done. by rewrite IH.
Qed.

Lemma filter_none {A} (P : A → Prop) `{∀ x, Decision (P x)} (l : list A) :
  Forall (λ x, ¬ P x) l → filter P l = [].
Proof.
  induction 1 as [|x l Hx _ IH]; [done|].
  by rewrite filter_cons_False.
Qed.

Lemma peers_foldl_cleanupPeer st (keys : list string) :
  peers (foldl cleanupPeer st keys) = filter (λ e, e.1 ∉ keys) (peers st).
Proof.
  revert st. induction keys as [|k keys IH]; intros st; simpl.
  - symmetry. apply filter_all, Forall_forall. intros e _. apply not_elem_of_nil.
  - rewrite IH, peers_cleanupPeer. unfold delete_peer.
    rewrite list_filter_filter. apply list_filter_iff. intros e.
    rewrite not_elem_of_cons. tauto.
Qed.

Lemma remoteVideos_foldl_cleanupPeer st (keys : list string) :
  remoteVideos (foldl cleanupPeer st keys) = filter (λ v, v ∉ keys) (remoteVideos st).
Proof.
  revert st. induction keys as [|k keys IH]; intros st; simpl.
  - symmetry. apply filter_all, Forall_forall. intros e _. apply not_elem_of_nil.
  - rewrite IH. unfold cleanupPeer at 1.
    destruct (lookup_peer k (peers st)); simpl;
      (rewrite list_filter_filter; apply list_filter_iff; intros e;
       rewrite not_elem_of_cons; tauto).
Qed.

Lemma foldl_cleanupPeer_frame st (keys : list string) :
  let st' := foldl cleanupPeer st keys in
  roomId st' = roomId st ∧ localStream st' = localStream st ∧
  screenStream st' = screenStream st ∧ currentStream st' = currentStream st ∧
  ended st' = ended st ∧ console st' = console st.
Proof.
  revert st. induction keys as [|k keys IH]; intros st; simpl; [done|].
  destruct (IH (cleanupPeer st k)) as (-> & -> & -> & -> & -> & ->).
  unfold cleanupPeer. by destruct (lookup_peer k (peers st)).
Qed.

Lemma stopScreenShare_no_peers st :
  peers st = [] →
  stopScreenShare st =
    (match screenStream st with
     | Some scr =>
         set_label "Toggle Screen Share"
           (set_streams (localStream st) None (localStream st) (localStream st)
              (stop_tracks (getTracks scr) st))
     | None => st
     end, Returned).
Proof.
  intros Hp. unfold stopScreenShare, replaceTracks.
  destruct (screenStream st) as [scr|]; [|done]. simpl. rewrite Hp. simpl.
  do 2 f_equal. unfold stop_tracks, set_peers, set_label; simpl.
  rewrite Hp. f_equal. by rewrite union_empty_r_L.
Qed.

(** [leaveRoom] in a room never throws and releases everything: no
    connection and none of their video elements is left, the tracks of the
    local stream and of the screen stream are stopped, the three stream
    variables and the room are cleared, polling is off and the join button
    works again.  A failed request to the server is logged and does not
    prevent any of this.  A second [leaveRoom] does nothing. *)
Theorem leaveRoom_releases_everything st (net : bool) :
  in_room st = true →
  let st' := (leaveRoom st net).1 in
  (leaveRoom st net).2 = Returned ∧
  peers st' = [] ∧
  (∀ key, key ∈ (peers st).*1 → key ∉ remoteVideos st') ∧
  roomId st' = None ∧ in_room st' = false ∧
  localStream st' = None ∧ screenStream st' = None ∧ currentStream st' = None ∧
  polling st' = false ∧ joinBtn_disabled st' = false ∧
  (∀ (s : stream) t, localStream st = Some s → t ∈ getTracks s →
     track_id t ∈ ended st') ∧
  (∀ (s : stream) t, screenStream st = Some s → t ∈ getTracks s →
     track_id t ∈ ended st') ∧
  (console st' = if net then console st else console st ++ ["Leave failed"]) ∧
  (∀ net', leaveRoom st' net' = (st', Returned)).
Proof.
  intros Hin. cbv zeta. destruct (leaveRoom st net) as [st' o] eqn:E. simpl.
  unfold leaveRoom in E. rewrite Hin in E.
  set (st1 := if net then st else log "Leave failed" st) in E.
  assert (peers st1 = peers st ∧ remoteVideos st1 = remoteVideos st ∧
          localStream st1 = localStream st ∧ screenStream st1 = screenStream st ∧
          console st1 = if net then console st else console st ++ ["Leave failed"])
    as (Hp1 & Hv1 & Hl1 & Hs1 & Hc1) by (subst st1; by destruct net).
  remember (foldl cleanupPeer st1 (peers st1).*1) as st2 eqn:E2.
  assert (peers st2 = []) as Hp2.
  { rewrite E2, peers_foldl_cleanupPeer. apply filter_none, Forall_forall.
    intros e He Hn. apply Hn. by apply list_elem_of_fmap_2. }
  assert (∀ key, key ∈ (peers st).*1 → key ∉ remoteVideos st2) as Hv2.
  { intros key Hk. rewrite E2, remoteVideos_foldl_cleanupPeer, Hp1.
    rewrite list_elem_of_filter. by intros [? _]. }
  destruct (foldl_cleanupPeer_frame st1 (peers st1).*1)
    as (_ & Hl2 & Hs2 & _ & _ & Hc2).
  rewrite <- E2 in Hl2, Hs2, Hc2. rewrite Hl1 in Hl2. rewrite Hs1 in Hs2.
  rewrite Hc1 in Hc2. clear E2 Hp1 Hv1 Hl1 Hs1 Hc1. clearbody st1.
  rewrite <- Hl2, <- Hs2, <- Hc2. clear Hl2 Hs2 Hc2 Hin.
  rewrite stopScreenShare_no_peers in E
    by (by destruct (localStream st2)).
  injection E as <- <-.
  destruct (localStream st2) as [l|] eqn:El, (screenStream st2) as [scr|] eqn:Es;
    cbn; rewrite ?El, ?Es; cbn;
    (split_and!; try done; intros s t [= <-] Ht; set_solver).
Qed.

(** *** Screen sharing at the edges *)

(** Stopping the screen share when there is no local stream to go back to,
    with a connection alive, throws: the screen tracks are stopped and the
    stream variables cleared, the first connection has lost its tracks, the
    connections after it are untouched, and the button still reads as it
    did.  The click handler [toggleScreenShare] lets the exception
    through. *)
Theorem stopScreenShare_without_camera_throws st (scr : stream) key pc
    (rest : list (string * connection)) :
  screenStream st = Some scr →
  localStream st = None →
  peers st = (key, pc) :: rest →
  let st' := (stopScreenShare st).1 in
  (stopScreenShare st).2 = Thrown "TypeError" ∧
  (∀ display, toggleScreenShare st display = stopScreenShare st) ∧
  peers st' = (key, clear_senders pc) :: rest ∧
  attached (clear_senders pc) = [] ∧
  screenStream st' = None ∧ currentStream st' = None ∧ localVideo st' = None ∧
  toggleScreenShareBtn st' = toggleScreenShareBtn st ∧
  (∀ t, t ∈ getTracks scr ∨ t ∈ attached pc → track_id t ∈ ended st').
Proof.
  intros Hs Hl Hp st'. subst st'.
  unfold stopScreenShare, replaceTracks. rewrite Hs. cbn. rewrite Hl, Hp. cbn.
  split_and!; try done.
  - intros display. unfold toggleScreenShare, stopScreenShare, replaceTracks.
    rewrite Hs. cbn. by rewrite Hl, Hp.
  - apply attached_clear_senders.
  - intros t [Ht|Ht].
    + apply elem_of_union. left. apply elem_of_union. right.
      by apply elem_of_list_to_set, list_elem_of_fmap_2.
    + apply elem_of_union. right.
      by apply elem_of_list_to_set, list_elem_of_fmap_2.
Qed.

(** The browser ending a shared screen track that carries the listener has
    the effect of a click on the button while sharing: both stop the share
    in the same way. *)
Theorem ended_capture_acts_like_toggle st (scr : stream) t
    (display : option stream) :
  screenStream st = Some scr →
  t ∈ getTracks scr →
  track_id t ∈ endedListeners st →
  onended st t = toggleScreenShare st display.
Proof.
  intros Hs Ht Hlis. rewrite (toggleScreenShare_off st scr) by done.
  unfold onended. cbn. destruct (decide (track_id t ∈ endedListeners st)); [|done].
  unfold stopScreenShare. cbn. rewrite Hs.
  assert (stop_tracks (getTracks scr) (stop_tracks [t] st)
          = stop_tracks (getTracks scr) st) as ->; [|done].
  unfold stop_tracks; cbn. f_equal.
  assert (track_id t ∈ (list_to_set (track_id <$> getTracks scr) : gset nat)) as Hi
    by by apply elem_of_list_to_set, list_elem_of_fmap_2.
  apply set_eq. intros x. rewrite !elem_of_union, elem_of_singleton. split.
  - intros [[?|[->|Hx]]|?];
      [by left|by right|by apply not_elem_of_empty in Hx|by right].
  - intros [?|?]; [by left; left|by right].
Qed.

(** *** Joining *)

(** A click on the join button with an empty room name only raises an
    alert, and the next click is served again.  When the camera request is
    rejected the join throws with the room recorded and the button
    disabled, and from then on a click on the join button does nothing,
    whatever is entered. *)
Theorem rejected_camera_blocks_joining st (room : string)
    (joined : option (list string)) (env : string → answers) :
  in_room st = false →
  room ≠ "" →
  let st' := (onJoinClick st room None joined env).1 in
  (onJoinClick st room None joined env).2 = Thrown "getUserMedia" ∧
  roomId st' = Some room ∧
  joinBtn_disabled st' = true ∧
  polling st' = polling st ∧ peers st' = peers st ∧ outbox st' = outbox st ∧
  (∀ room' media' joined' env',
     onJoinClick st' room' media' joined' env' = (st', Returned)) ∧
  (∀ media,
     onJoinClick st "" media joined env
       = (alert "Please enter a room ID" (set_roomId (Some "") st), Returned) ∧
     in_room (onJoinClick st "" media joined env).1 = false).
Proof.
  intros Hin Hroom. cbv zeta.
  assert (onJoinClick st room None joined env
          = (set_joinBtn_disabled true (set_roomId (Some room) st),
             Thrown "getUserMedia")) as ->.
  { unfold onJoinClick. rewrite Hin. unfold joinRoom.
    by destruct (decide (room = "")). }
  cbn. split_and!; try done.
  - intros room' media' joined' env'. unfold onJoinClick, in_room. cbn.
    by rewrite bool_decide_eq_true_2.
  - intros media. unfold onJoinClick. rewrite Hin. by unfold joinRoom.
Qed.



(** *** Connections follow the current source *)

Lemma in_sync_frame st st' :
  peers st' = peers st → currentStream st' = currentStream st →
  in_sync st → in_sync st'.
Proof. unfold in_sync, source_tracks. by intros -> ->. Qed.

Lemma Forall_set_peer (P : string * connection → Prop) key pc ps :
  Forall P ps → P (key, pc) → Forall P (set_peer key pc ps).
Proof.
  intros Hall Hpc. induction Hall as [|[k old] ps Hk Hps IH]; simpl.
  - by constructor.
  - destruct (decide (k = key)) as [->|_]; by constructor.
Qed.

Lemma in_sync_set_peer st st' key pc :
  in_sync st → attached pc ≡ₚ source_tracks st →
  peers st' = set_peer key pc (peers st) →
  currentStream st' = currentStream st →
  in_sync st'.
Proof.
  intros Hs Hpc Hp Hc. unfold in_sync, source_tracks in *. rewrite Hp, Hc.
  by apply Forall_set_peer.
Qed.

Lemma in_sync_update_peer st key (f : connection → connection) :
  (∀ pc, attached (f pc) = attached pc) →
  in_sync st → in_sync (update_peer st key f).
Proof.
  intros Hf Hs. unfold update_peer.
  destruct (lookup_peer key (peers st)) as [pc|] eqn:E; [|done].
  apply (in_sync_set_peer st _ key (f pc)); [done| |done..]. rewrite Hf.
  apply lookup_peer_elem_of in E. unfold in_sync in Hs.
  rewrite Forall_forall in Hs. by apply (Hs _ E).
Qed.

Lemma attached_negotiated pc : attached (negotiated pc) = attached pc.
Proof.
  unfold attached, negotiated; cbn.
  induction (getSenders pc) as [|s ss IH]; [done|].
  rewrite fmap_cons. cbn [omap list_omap].
  destruct (sender_track s) eqn:E; cbn; rewrite ?E; by rewrite <- IH.
Qed.

Lemma in_sync_sendMessage st (to ty : string) (d : value) (net : bool) :
  in_sync st → in_sync (sendMessage st to ty d net).
Proof. apply in_sync_frame; unfold sendMessage; by destruct net. Qed.

Lemma in_sync_attach_new st key :
  lookup_peer key (peers st) = None →
  in_sync st →
  in_sync
    (attach_current (set_peers (set_peer key createPeerConnection (peers st)) st)
       key createPeerConnection).1.
Proof.
  intros Hl Hs. unfold attach_current. cbn.
  destruct (currentStream st) as [s|] eqn:Hc; cbn.
  - apply (in_sync_set_peer st _ key
             (foldl addTrack createPeerConnection (getTracks s))); [done| | |done].
    + unfold source_tracks. rewrite Hc. by rewrite attached_foldl_addTrack.
    + cbn. by rewrite set_peer_set_peer.
  - apply (in_sync_set_peer st _ key createPeerConnection); [done| |done..].
    unfold source_tracks. by rewrite Hc.
Qed.

Lemma in_sync_callPeer st key (offer : value) (net : bool) :
  in_sync st → in_sync (callPeer st key offer net).1.
Proof.
  intros Hs. unfold callPeer.
  destruct (lookup_peer key (peers st)) eqn:Hl; [done|].
  pose proof (in_sync_attach_new st key Hl Hs) as H.
  destruct (attach_current _ key createPeerConnection) as [st2 [|e]]; cbn in *;
    [|done].
  by apply in_sync_sendMessage, in_sync_update_peer.
Qed.

Lemma in_sync_answerCall st key (offer answer : value) (net : bool) :
  in_sync st → in_sync (answerCall st key offer answer net).1.
Proof.
  intros Hs. unfold answerCall.
  destruct (lookup_peer key (peers st)) eqn:Hl; cbn.
  - by apply in_sync_sendMessage, in_sync_update_peer, in_sync_update_peer.
  - pose proof (in_sync_attach_new st key Hl Hs) as H.
    destruct (attach_current _ key createPeerConnection) as [st2 [|e]]; cbn in *;
      [|done].
    by apply in_sync_sendMessage, in_sync_update_peer, in_sync_update_peer.
Qed.

Lemma in_sync_cleanupPeer st key : in_sync st → in_sync (cleanupPeer st key).
Proof.
  intros Hs. unfold in_sync, source_tracks in *.
  rewrite peers_cleanupPeer.
  assert (currentStream (cleanupPeer st key) = currentStream st) as ->.
  { unfold cleanupPeer. by destruct (lookup_peer key (peers st)). }
  rewrite Forall_forall in *. intros e He.
  apply list_elem_of_filter in He as [_ He]. by apply Hs.
Qed.

Lemma in_sync_addIceCandidate st key (c : value) (accepted : bool) :
  in_sync st → in_sync (addIceCandidate st key c accepted).
Proof.
  intros Hs. pose proof (in_sync_update_peer st key (add_candidate c)
                           (λ _, eq_refl) Hs) as H.
  unfold addIceCandidate, update_peer in *.
  destruct (lookup_peer key (peers st)); [|done].
  destruct accepted; [done|]. revert H. by apply in_sync_frame.
Qed.

Lemma in_sync_handleMessage st (msg : Msg) (env : answers) :
  in_sync st → in_sync (handleMessage st msg env).1.
Proof.
  intros Hs. unfold handleMessage. repeat case_decide; cbn.
  - by apply in_sync_callPeer.
  - by apply in_sync_cleanupPeer.
  - by apply in_sync_answerCall.
  - by apply in_sync_update_peer.
  - by apply in_sync_addIceCandidate.
  - revert Hs. by apply in_sync_frame.
Qed.

Lemma in_sync_handle_each st (msgs : list Msg) (env : Msg → answers) :
  in_sync st → in_sync (handle_each st msgs env).1.
Proof.
  revert st. induction msgs as [|msg msgs IH]; intros st Hs; cbn; [done|].
  pose proof (in_sync_handleMessage st msg (env msg) Hs) as H.
  destruct (handleMessage st msg (env msg)) as [st1 [|e]]; cbn in *; [|done].
  by apply IH.
Qed.

Lemma in_sync_pollMessages st (batch : option (list Msg)) (env : Msg → answers) :
  in_sync st → in_sync (pollMessages st batch env).
Proof.
  intros Hs. unfold pollMessages. destruct (polling st); [|done].
  destruct batch as [msgs|]; [|revert Hs; by apply in_sync_frame].
  pose proof (in_sync_handle_each st msgs env Hs) as H.
  destruct (handle_each st msgs env) as [st1 [|e]]; cbn in *; [done|].
  revert H. by apply in_sync_frame.
Qed.

Lemma in_sync_stopScreenShare st :
  in_sync st → is_Some (localStream st) → in_sync (stopScreenShare st).1.
Proof.
  intros Hs [cam Hl]. destruct (screenStream st) as [scr|] eqn:Hscr.
  - rewrite (stopScreenShare_back st scr cam) by done.
    unfold in_sync, source_tracks. cbn. apply carries_replace.
  - unfold stopScreenShare. by rewrite Hscr.
Qed.

Lemma in_sync_toggleScreenShare st (display : option stream) :
  in_sync st → is_Some (localStream st) → in_sync (toggleScreenShare st display).1.
Proof.
  intros Hs Hl. destruct (screenStream st) as [scr|] eqn:Hscr.
  - rewrite (toggleScreenShare_off st scr) by done. by apply in_sync_stopScreenShare.
  - destruct display as [scr|].
    + destruct (getVideoTracks scr) as [|v vs] eqn:Hv.
      * unfold toggleScreenShare. rewrite Hscr, Hv. cbn.
        revert Hs. by apply in_sync_frame.
      * rewrite (toggleScreenShare_on st scr v vs) by done.
        unfold in_sync, source_tracks. cbn. apply carries_replace.
    + unfold toggleScreenShare. rewrite Hscr. cbn.
      revert Hs. by apply in_sync_frame.
Qed.

Lemma localStream_replaceTracks st (stream : option stream) :
  localStream (replaceTracks st stream).1 = localStream st.
Proof.
  unfold replaceTracks. by destruct (replace_each stream (peers st)) as [[ps stopped] o].
Qed.

Lemma localStream_stopScreenShare st :
  localStream (stopScreenShare st).1 = localStream st.
Proof.
  unfold stopScreenShare. destruct (screenStream st) as [scr|]; [|done].
  match goal with |- context [replaceTracks ?a ?b] =>
    pose proof (localStream_replaceTracks a b) as H;
    destruct (replaceTracks a b) as [st3 [|e]]
  end; cbn in *; by rewrite H.
Qed.

Lemma localStream_toggleScreenShare st (display : option stream) :
  localStream (toggleScreenShare st display).1 = localStream st.
Proof.
  unfold toggleScreenShare. destruct (screenStream st) as [scr|] eqn:Hs.
  - apply localStream_stopScreenShare.
  - destruct display as [scr|]; [|done].
    destruct (getVideoTracks scr) as [|v vs]; [done|].
    match goal with |- context [replaceTracks ?a ?b] =>
      pose proof (localStream_replaceTracks a b) as H;
      destruct (replaceTracks a b) as [st4 [|e]]
    end; cbn in *; by rewrite H.
Qed.

Lemma localStream_cleanupPeer st key : localStream (cleanupPeer st key) = localStream st.
Proof. unfold cleanupPeer. by destruct (lookup_peer key (peers st)). Qed.

Lemma localStream_sendMessage st (to ty : string) (d : value) (net : bool) :
  localStream (sendMessage st to ty d net) = localStream st.
Proof. unfold sendMessage. by destruct net. Qed.

Lemma localStream_update_peer st key (f : connection → connection) :
  localStream (update_peer st key f) = localStream st.
Proof. unfold update_peer. by destruct (lookup_peer key (peers st)). Qed.

Lemma localStream_callPeer st key (offer : value) (net : bool) :
  localStream (callPeer st key offer net).1 = localStream st.
Proof.
  unfold callPeer, attach_current. destruct (lookup_peer key (peers st)); [done|].
  cbn. destruct (currentStream st); cbn; [|done].
  by rewrite localStream_sendMessage, localStream_update_peer.
Qed.

Lemma localStream_answerCall st key (offer answer : value) (net : bool) :
  localStream (answerCall st key offer answer net).1 = localStream st.
Proof.
  unfold answerCall, attach_current. destruct (lookup_peer key (peers st)); cbn.
  - by rewrite localStream_sendMessage, !localStream_update_peer.
  - destruct (currentStream st); cbn; [|done].
    by rewrite localStream_sendMessage, !localStream_update_peer.
Qed.

Lemma localStream_handleMessage st (msg : Msg) (env : answers) :
  localStream (handleMessage st msg env).1 = localStream st.
Proof.
  unfold handleMessage. repeat case_decide; cbn.
  - apply localStream_callPeer.
  - apply localStream_cleanupPeer.
  - apply localStream_answerCall.
  - apply localStream_update_peer.
  - unfold addIceCandidate. destruct (lookup_peer _ _); [|done].
    by destruct (ice_ok env).
  - done.
Qed.

Lemma localStream_handle_each st (msgs : list Msg) (env : Msg → answers) :
  localStream (handle_each st msgs env).1 = localStream st.
Proof.
  revert st. induction msgs as [|msg msgs IH]; intros st; cbn; [done|].
  pose proof (localStream_handleMessage st msg (env msg)) as H.
  destruct (handleMessage st msg (env msg)) as [st1 [|e]]; cbn in *; [|done].
  by rewrite IH.
Qed.

Lemma localStream_react st (ev : event) :
  keeps_source ev = true → localStream (react st ev) = localStream st.
Proof.
  destruct ev as [media|display|t|msg env|key offer net|key c net|key|key cs|key
                 |room media joined env|net|batch env]; intros Hk; try done; cbn.
  - apply localStream_toggleScreenShare.
  - unfold onended. case_decide; [|done]. by rewrite localStream_stopScreenShare.
  - apply localStream_handleMessage.
  - apply localStream_callPeer.
  - unfold onicecandidate. destruct c; [|done]. apply localStream_sendMessage.
  - unfold ontrack. by case_decide.
  - unfold onconnectionstatechange. case_decide; [|done]. apply localStream_cleanupPeer.
  - apply localStream_update_peer.
  - unfold pollMessages. destruct (polling st); [|done].
    destruct batch as [msgs|]; [|done].
    pose proof (localStream_handle_each st msgs env) as H.
    by destruct (handle_each st msgs env) as [st1 [|e]].
Qed.

Lemma in_sync_react st (ev : event) :
  in_sync st → is_Some (localStream st) → keeps_source ev = true →
  in_sync (react st ev).
Proof.
  intros Hs Hl.
  destruct ev as [media|display|t|msg env|key offer net|key c net|key|key cs|key
                 |room media joined env|net|batch env]; intros Hk; try done; cbn.
  - by apply in_sync_toggleScreenShare.
  - unfold onended. case_decide.
    + apply in_sync_stopScreenShare; [|done]. revert Hs. by apply in_sync_frame.
    + revert Hs. by apply in_sync_frame.
  - by apply in_sync_handleMessage.
  - by apply in_sync_callPeer.
  - unfold onicecandidate. destruct c; [|done]. by apply in_sync_sendMessage.
  - unfold ontrack. case_decide; [done|]. revert Hs. by apply in_sync_frame.
  - unfold onconnectionstatechange. case_decide; [|done]. by apply in_sync_cleanupPeer.
  - apply in_sync_update_peer; [|done]. apply attached_negotiated.
  - by apply in_sync_pollMessages.
Qed.

(** While the client holds a local stream, every live connection carries
    exactly the tracks of the current source, and this stays so through any
    sequence of events other than acquiring a new camera stream or leaving:
    signalling messages, calls, candidates, screen-share toggles, ended
    captures and closed connections.  A connection is created with the
    current tracks, and only a switch of the source, which replaces the
    tracks of all connections together, changes them. *)
Theorem connections_follow_current_source st (evs : list event) :
  in_sync st →
  is_Some (localStream st) →
  Forall (λ ev, keeps_source ev = true) evs →
  in_sync (foldl react st evs) ∧ localStream (foldl react st evs) = localStream st.
Proof.
  intros Hs Hl Hall. revert st Hs Hl.
  induction Hall as [|ev evs Hev _ IH]; intros st Hs Hl; [done|].
  cbn. destruct (IH (react st ev)) as [H1 H2].
  - by apply in_sync_react.
  - by rewrite localStream_react.
  - split; [done|]. by rewrite H2, localStream_react.
Qed.

End ClientMore.

(** ** The client and the server together *)

Section ExchangeFacts.
Import Wire Exchange.








End ExchangeFacts.

(** ** The further properties at work on sample runs *)

Section MoreSamples.
Import Wire.

Local Ltac decided := apply (bool_decide_unpack _); vm_compute; exact I.







(** Without a source, the notice of Dave's arrival throws, and the message
    after it in the batch is lost. *)
Lemma failing_message_drops_rest_of_batch_sample :
  let env := λ _ : Msg, Client.mkAnswers (VStr "sdp") true true in
  let before := [mkMsg "ice-candidate" (VStr "candidate:1") "bob"] in
  let msg := Server.peer_connected "dave" in
  let after := [mkMsg "ice-candidate" (VStr "candidate:2") "bob"] in
  Client.polling Client.without_source = true ∧
  (Client.handle_each Client.without_source before env).2 = Client.Returned ∧
  (Client.handleMessage (Client.handle_each Client.without_source before env).1
                        msg (env msg)).2 = Client.Thrown "TypeError" ∧
  Client.iceCandidates <$>
    Client.lookup_peer "bob"
      (Client.peers
         (Client.pollMessages Client.without_source
                              (Some (before ++ msg :: after)) env))
    = Some [VStr "candidate:1"].
Proof.
  intros env before msg after.
  destruct (failing_message_drops_rest_of_batch Client.without_source before after
              msg env "TypeError" eq_refl eq_refl eq_refl) as (H & _).
  split_and!; [reflexivity..|].
  rewrite H. reflexivity.
Defined.

(** The client leaves the call. *)
Lemma leaveRoom_releases_everything_sample :
  Client.in_room Client.in_call = true ∧
  Client.peers (Client.leaveRoom Client.in_call true).1 = [] ∧
  Client.localStream (Client.leaveRoom Client.in_call true).1 = None ∧
  Client.polling (Client.leaveRoom Client.in_call true).1 = false.
Proof.
  destruct (leaveRoom_releases_everything Client.in_call true eq_refl)
    as (_ & Hp & _ & _ & _ & Hl & _ & _ & Hpoll & _).
  split_and!; [reflexivity|exact Hp|exact Hl|exact Hpoll].
Defined.

(** The share is stopped with no camera stream to go back to. *)
Lemma stopScreenShare_without_camera_throws_sample :
  Client.screenStream Client.sharing_without_camera = Some Client.screen ∧
  Client.localStream Client.sharing_without_camera = None ∧
  Client.peers Client.sharing_without_camera ≠ [] ∧
  (Client.stopScreenShare Client.sharing_without_camera).2
    = Client.Thrown "TypeError".
Proof.
  assert (Client.peers Client.sharing_without_camera ≠ []) as Hne by discriminate.
  split_and!; [reflexivity|reflexivity|exact Hne|].
  destruct (Client.peers Client.sharing_without_camera) as [|[key pc] rest] eqn:E;
    [done|].
  exact (proj1 (stopScreenShare_without_camera_throws Client.sharing_without_camera
                  Client.screen key pc rest eq_refl eq_refl E)).
Defined.

(** The browser ends the shared screen track. *)
Lemma ended_capture_acts_like_toggle_sample :
  let st := (Client.toggleScreenShare Client.in_call (Some Client.screen)).1 in
  let t := Client.mkTrack 3 Client.Video in
  Client.screenStream st = Some Client.screen ∧
  (t ∈ Client.getTracks Client.screen) ∧
  (Client.track_id t ∈ Client.endedListeners st) ∧
  Client.onended st t = Client.toggleScreenShare st None.
Proof.
  intros st t.
  assert (t ∈ Client.getTracks Client.screen) as H2 by decided.
  assert (Client.track_id t ∈ Client.endedListeners st) as H3 by decided.
  split_and!; [reflexivity|exact H2|exact H3|].
  exact (ended_capture_acts_like_toggle st Client.screen t None eq_refl H2 H3).
Defined.

(** The camera request is rejected on the first join. *)
Lemma rejected_camera_blocks_joining_sample :
  let env := λ _ : string, Client.mkAnswers (VStr "offer") true true in
  Client.in_room Client.blank = false ∧ "lobby" ≠ "" ∧
  (let st' := (Client.onJoinClick Client.blank "lobby" None (Some []) env).1 in
   Client.joinBtn_disabled st' = true ∧
   Client.onJoinClick st' "lobby" (Some Client.camera) (Some []) env
     = (st', Client.Returned)).
Proof.
  intros env.
  assert ("lobby" ≠ "") as H2 by discriminate.
  destruct (rejected_camera_blocks_joining Client.blank "lobby" (Some []) env
              eq_refl H2) as (_ & _ & Hd & _ & _ & _ & Hclick & _).
  split_and!; [reflexivity|exact H2|].
  cbv zeta. split; [exact Hd|apply Hclick].
Defined.


Lemma in_call_in_sync : Client.in_sync Client.in_call.
Proof. repeat constructor. Defined.

(** During the call the screen is shared, a candidate arrives, and the share
    is stopped. *)
Lemma connections_follow_current_source_sample :
  let evs :=
    [ Client.ToggleScreenShare (Some Client.screen);
      Client.HandleMessage (mkMsg "ice-candidate" (VStr "candidate:1") "bob")
                           (Client.mkAnswers VNull true true);
      Client.ToggleScreenShare None ] in
  Client.in_sync Client.in_call ∧
  is_Some (Client.localStream Client.in_call) ∧
  Forall (λ ev, Client.keeps_source ev = true) evs ∧
  Client.in_sync (foldl Client.react Client.in_call evs).
Proof.
  intros evs.
  assert (is_Some (Client.localStream Client.in_call)) as H2
    by (by exists Client.camera).
  assert (Forall (λ ev, Client.keeps_source ev = true) evs) as H3
    by (repeat constructor).
  split_and!; [exact in_call_in_sync|exact H2|exact H3|].
  exact (proj1 (connections_follow_current_source Client.in_call evs
                  in_call_in_sync H2 H3)).
Defined.



End MoreSamples.
